(** * Lead capture of the SDR voice agent (backend/src/agent.py)

    A shallow embedding of the lead-capture core of the agent: the
    [LeadManager] class (profile dictionary, [update], [is_complete],
    [save_to_disk]), the module-level [lead_state] instance and the two tools
    of [SDRTools] ([update_lead_profile], [submit_lead]), followed by the
    properties of the specification that concern them.

    Python objects that are mutated in place (the profile dictionary and the
    copy made by [save_to_disk]) live on an explicit heap and are referred to
    by location, so that aliasing is visible.  Code that can raise returns
    in an exception monad over the world (heap, leads file, log). *)

From Stdlib Require Import Ascii.
From stdpp Require Import gmap strings list fin_maps.

(** ** Python values and JSON documents *)

(** The values a profile field holds: [None] or a [str]
    (the tools declare every argument as [Optional[str]]). *)
Inductive value :=
  | VNone
  | VStr (s : string).

#[global] Instance value_eq_dec : EqDecision value.
Proof. solve_decision. Defined.

(** Truth value of an object, as [all] and [if] test it:
    [None] and the empty string are false, every other string is true. *)
Definition truthy (v : value) : bool :=
  match v with
  | VNone => false
  | VStr "" => false
  | VStr _ => true
  end.

(** [v is not None]. *)
Definition is_not_None (v : value) : bool :=
  match v with
  | VNone => false
  | VStr _ => true
  end.

(** What [json.load] returns and [json.dump] accepts. *)
#[local] Set Warnings "-register-all".
Inductive json :=
  | JNull
  | JBool (b : bool)
  | JNum (n : Z)
  | JStr (s : string)
  | JArr (items : list json)
  | JObj (members : gmap string json).

(** A [dict] with string keys whose values are [None] or strings. *)
Abbreviation dict := (gmap string value).

Definition value_to_json (v : value) : json :=
  match v with
  | VNone => JNull
  | VStr s => JStr s
  end.

(** The JSON object [json.dump] writes for a dictionary. *)
Definition dict_to_json (d : dict) : json := JObj (value_to_json <$> d).

(** ** Capture time: [datetime.now().isoformat()] *)

(** A naive [datetime] (no time zone), as [datetime.now()] returns it. *)
Record datetime := DateTime {
  year : Z;
  month : Z;
  day : Z;
  hour : Z;
  minute : Z;
  second : Z;
  microsecond : Z
}.

(** The ranges Python's [datetime] enforces on its fields. *)
Definition valid_datetime (t : datetime) : Prop :=
  (1 ≤ year t ≤ 9999 ∧ 1 ≤ month t ≤ 12 ∧ 1 ≤ day t ≤ 31 ∧
   0 ≤ hour t < 24 ∧ 0 ≤ minute t < 60 ∧ 0 ≤ second t < 60 ∧
   0 ≤ microsecond t < 1000000)%Z.

(** The character of the last decimal digit of [n]. *)
Definition digit (n : Z) : ascii := ascii_of_N (Z.to_N (48 + n mod 10)).

(** [%0wd] for a number from [0] to [10^w - 1]: its [w] decimal digits. *)
Fixpoint zero_pad (w : nat) (n : Z) : string :=
  match w with
  | 0 => ""
  | S w' => String (digit (n / 10 ^ Z.of_nat w')) (zero_pad w' n)
  end.

(** [datetime.isoformat()] with the default separator ['T'] and
    [timespec='auto']: the fraction is printed only when it is not zero. *)
Definition isoformat (t : datetime) : string :=
  (zero_pad 4 (year t) +:+ "-" +:+ zero_pad 2 (month t) +:+ "-" +:+ zero_pad 2 (day t)
   +:+ "T" +:+ zero_pad 2 (hour t) +:+ ":" +:+ zero_pad 2 (minute t)
   +:+ ":" +:+ zero_pad 2 (second t)
   +:+ (if decide (microsecond t = 0%Z) then "" else "." +:+ zero_pad 6 (microsecond t)))%string.

(** ** The world: heap, leads file, log *)

Abbreviation loc := nat (only parsing).

(** The content of [leads_db.json], by what reading it gives:
    bytes that are not text in the file's encoding ([f.read()] raises
    [UnicodeDecodeError]), text that is not JSON ([json.load] raises
    [JSONDecodeError]), or a JSON text, which stands for the value
    [json.load] makes of it; [json.dump] writes the text of a value. *)
Inductive file_content :=
  | Undecodable
  | NotJSON
  | Document (j : json).

(** What [logger.info] is given. *)
Inductive log_record :=
  | ProfileUpdated (p : dict)
  | LeadSaved.

Record world := World {
  heap : list dict;                    (* dictionaries, by location *)
  leads_file : option file_content;    (* LEADS_FILE; None: no such file *)
  log : list log_record                (* oldest first *)
}.

Definition set_heap (h : list dict) (w : world) : world :=
  {| heap := h; leads_file := leads_file w; log := log w |}.
Definition set_leads_file (f : option file_content) (w : world) : world :=
  {| heap := heap w; leads_file := f; log := log w |}.
Definition add_log (r : log_record) (w : world) : world :=
  {| heap := heap w; leads_file := leads_file w; log := log w ++ [r] |}.

(** Exceptions.  [InvalidReference] is not Python's: it is what the model
    answers at a location that was never allocated, which no Python program
    can hold; see [wf]. *)
Inductive exn :=
  | KeyError (k : string)
  | FileNotFoundError
  | JSONDecodeError
  | UnicodeDecodeError
  | AttributeError (attr : string)
  | InvalidReference.

Inductive outcome (A : Type) :=
  | Return (a : A) (w : world)
  | Raise (e : exn) (w : world).
Arguments Return {A} a w.
Arguments Raise {A} e w.

Definition M (A : Type) : Type := world → outcome A.

#[global] Instance M_ret : MRet M := λ A a w, Return a w.
#[global] Instance M_bind : MBind M := λ A B f m w,
  match m w with
  | Return a w' => f a w'
  | Raise e w' => Raise e w'
  end.

Definition raise {A} (e : exn) : M A := λ w, Raise e w.

(** [try: body / except E: handler], for the exceptions [catches] selects. *)
Definition try_except {A} (body : M A) (catches : exn → bool) (handler : M A) : M A :=
  λ w, match body w with
       | Return a w' => Return a w'
       | Raise e w' => if catches e then handler w' else Raise e w'
       end.

(** [for x in xs: body x]. *)
Fixpoint for_each {A} (xs : list A) (body : A → M unit) : M unit :=
  match xs with
  | [] => mret tt
  | x :: xs' => body x ;; for_each xs' body
  end.

(** The state of the world after a call, however it ended. *)
Definition world_of {A} (r : outcome A) : world :=
  match r with
  | Return _ w => w
  | Raise _ w => w
  end.

(** *** Dictionaries on the heap *)

Definition dict_new (d : dict) : M loc :=
  λ w, Return (length (heap w)) (set_heap (heap w ++ [d]) w).

Definition dict_read (l : loc) : M dict :=
  λ w, match heap w !! l with
       | Some d => Return d w
       | None => Raise InvalidReference w
       end.

(** [d[k] = v] *)
Definition dict_setitem (l : loc) (k : string) (v : value) : M unit :=
  λ w, match heap w !! l with
       | Some d => Return tt (set_heap (<[l := <[k := v]> d]> (heap w)) w)
       | None => Raise InvalidReference w
       end.

(** [d[k]] *)
Definition dict_getitem (l : loc) (k : string) : M value :=
  d ← dict_read l;
  match d !! k with
  | Some v => mret v
  | None => raise (KeyError k)
  end.

(** [d.copy()]: a new dictionary with the same items. *)
Definition dict_copy (l : loc) : M loc :=
  d ← dict_read l; dict_new d.

Definition logger_info (r : log_record) : M unit :=
  λ w, Return tt (add_log r w).

(** *** Objects held in local variables *)

(** What [existing_leads] and the items of that list can be: an object tree
    made by [json.load] (nothing else refers to it), a reference to a
    dictionary on the heap, or a list built by the call. *)
Inductive pyobj :=
  | PJson (j : json)
  | PDict (l : loc)
  | PList (items : list pyobj).

(** [o.append(x)]: lists have the method; [None], booleans, numbers,
    strings and dictionaries do not. *)
Definition list_append (o x : pyobj) : M pyobj :=
  match o with
  | PList items => mret (PList (items ++ [x]))
  | PJson (JArr items) => mret (PList ((PJson <$> items) ++ [x]))
  | PJson _ | PDict _ => raise (AttributeError "append")
  end.

(** The JSON value of an object; dictionaries are read from the heap at the
    time of the call. *)
Fixpoint json_of (h : list dict) (o : pyobj) : option json :=
  match o with
  | PJson j => Some j
  | PDict l => dict_to_json <$> h !! l
  | PList items =>
      JArr <$> (fix go (os : list pyobj) : option (list json) :=
                  match os with
                  | [] => Some []
                  | o' :: os' =>
                      match json_of h o', go os' with
                      | Some j, Some js => Some (j :: js)
                      | _, _ => None
                      end
                  end) items
  end.

(** *** The leads file *)

(** [os.path.exists(LEADS_FILE)] *)
Definition os_path_exists : M bool :=
  λ w, Return (bool_decide (is_Some (leads_file w))) w.

(** [with open(LEADS_FILE, "r") as f: json.load(f)] *)
Definition json_load : M pyobj :=
  λ w, match leads_file w with
       | None => Raise FileNotFoundError w
       | Some Undecodable => Raise UnicodeDecodeError w
       | Some NotJSON => Raise JSONDecodeError w
       | Some (Document j) => Return (PJson j) w
       end.

(** [with open(LEADS_FILE, "w") as f: json.dump(o, f, indent=4)] *)
Definition json_dump (o : pyobj) : M unit :=
  λ w, match json_of (heap w) o with
       | Some j => Return tt (set_leads_file (Some (Document j)) w)
       | None => Raise InvalidReference w
       end.

Definition is_JSONDecodeError (e : exn) : bool :=
  match e with
  | JSONDecodeError => true
  | _ => false
  end.

(** ** class LeadManager *)

Record LeadManager := { profile : loc }.

Definition empty_profile : dict :=
  <["name" := VNone]> (<["company" := VNone]> (<["email" := VNone]>
  (<["use_case" := VNone]> (<["budget" := VNone]> (<["timeline" := VNone]> ∅))))).

(** [LeadManager.__init__] *)
Definition LeadManager_init : M LeadManager :=
  p ← dict_new empty_profile;
  mret {| profile := p |}.

(** [LeadManager.update]; [kwargs] holds the keyword arguments in the order
    of the call. *)
Definition update (self : LeadManager) (kwargs : list (string * value)) : M unit :=
  for_each kwargs (λ kv,
    if is_not_None kv.2 then dict_setitem (profile self) kv.1 kv.2 else mret tt);;
  p ← dict_read (profile self);
  logger_info (ProfileUpdated p).

(** Python's [all] on a list of values. *)
Definition all (vs : list value) : bool := forallb truthy vs.

(** [LeadManager.is_complete()] *)
Definition is_complete (self : LeadManager) : M bool :=
  name ← dict_getitem (profile self) "name";
  use_case ← dict_getitem (profile self) "use_case";
  mret (all [name; use_case]).

(** [LeadManager.save_to_disk()]; [now] is what [datetime.now()] returns
    during the call. *)
Definition save_to_disk (self : LeadManager) (now : datetime) : M unit :=
  entry ← dict_copy (profile self);
  dict_setitem entry "timestamp" (VStr (isoformat now));;
  existing_leads ←
    (file_exists ← os_path_exists;
     if file_exists : bool
     then try_except json_load is_JSONDecodeError (mret (PList []))
     else mret (PList []));
  existing_leads ← list_append existing_leads (PDict entry);
  json_dump existing_leads;;
  logger_info LeadSaved.

(** ** Module state and class SDRTools *)

(** The world when the module starts to load, with whatever leads file the
    disk has. *)
Definition boot (f : option file_content) : world :=
  {| heap := []; leads_file := f; log := [] |}.

(** [lead_state = LeadManager()], run once when the module is loaded: the
    instance whose profile is the first dictionary of the heap. *)
Definition lead_state : LeadManager := {| profile := 0 |}.

(** The world once the module is loaded. *)
Definition initial_world (f : option file_content) : world :=
  {| heap := [empty_profile]; leads_file := f; log := [] |}.

(** An [SDRTools()] object; [entrypoint] makes one per conversation, and
    [conversation] tells them apart.  The class has no attribute of its own. *)
Record SDRTools := { conversation : nat }.

Definition update_lead_profile (self : SDRTools)
    (name company email use_case budget timeline : value) : M string :=
  update lead_state
    [("name", name); ("company", company); ("email", email);
     ("use_case", use_case); ("budget", budget); ("timeline", timeline)];;
  mret "Lead profile updated successfully.".

Definition submit_lead (self : SDRTools) (now : datetime) : M string :=
  save_to_disk lead_state now;;
  mret "Lead has been saved to the database.".

(** *** Conversations as sequences of tool calls *)

(** The arguments of one [update_lead_profile] call. *)
Record update_args := UpdateArgs {
  arg_name : value;
  arg_company : value;
  arg_email : value;
  arg_use_case : value;
  arg_budget : value;
  arg_timeline : value
}.

Inductive tool_call :=
  | UpdateLeadProfile (a : update_args)
  | SubmitLead (now : datetime).

Definition call_tool (self : SDRTools) (c : tool_call) : M string :=
  match c with
  | UpdateLeadProfile a =>
      update_lead_profile self (arg_name a) (arg_company a) (arg_email a)
        (arg_use_case a) (arg_budget a) (arg_timeline a)
  | SubmitLead now => submit_lead self now
  end.

(** The world after a sequence of tool calls, each made through some
    [SDRTools] object; a call that raises leaves the world as it was when
    the exception left the tool, and the next call goes on from there. *)
Definition run_calls (cs : list (SDRTools * tool_call)) (w : world) : world :=
  foldl (λ w' sc, world_of (call_tool sc.1 sc.2 w')) w cs.

(** The dictionary of the shared profile, for reading it in statements. *)
Definition profile_of (w : world) : option dict := heap w !! profile lead_state.

(** The names of the profile's fields. *)
Definition profile_fields : list string :=
  ["name"; "company"; "email"; "use_case"; "budget"; "timeline"].

(** Worlds the program can be in: the profile of [lead_state] is allocated
    and has the six fields [__init__] gave it. *)
Definition wf (w : world) : Prop :=
  ∃ d, profile_of w = Some d ∧ dom d = list_to_set profile_fields.

(** ** Functions used to state the properties *)

(** The dictionary the loop of [update] leaves: every keyword argument that
    is not [None] assigned, in order. *)
Definition assign_kwargs (kwargs : list (string * value)) (d : dict) : dict :=
  foldl (λ d' kv, if is_not_None kv.2 then <[kv.1 := kv.2]> d' else d') d kwargs.

(** The keyword arguments [update_lead_profile] passes to [update]. *)
Definition kwargs_of (a : update_args) : list (string * value) :=
  [("name", arg_name a); ("company", arg_company a); ("email", arg_email a);
   ("use_case", arg_use_case a); ("budget", arg_budget a);
   ("timeline", arg_timeline a)].

(** The value a call supplies for the field [k]; [None] for a name that is
    not a field. *)
Definition supplied (k : string) (a : update_args) : value :=
  default VNone (list_to_map (M := gmap string value) (kwargs_of a) !! k).

(** The value of the field [k] of the shared profile. *)
Definition field (k : string) (w : world) : option value :=
  profile_of w ≫= (.!! k).

(** The value the specification expects in a field after a sequence of
    calls: the last supplied value that is not empty ([None] and the empty
    string both count as empty there), [init] when there is none. *)
Definition last_non_empty (k : string) (calls : list update_args) (init : value) : value :=
  foldl (λ cur a, if truthy (supplied k a) then supplied k a else cur) init calls.

(** The same with [None] as the only value that is passed over. *)
Definition last_not_None (k : string) (calls : list update_args) (init : value) : value :=
  foldl (λ cur a, if is_not_None (supplied k a) then supplied k a else cur) init calls.

(** A sequence of [update_lead_profile] calls, each through its own
    [SDRTools] object. *)
Definition update_calls (calls : list (SDRTools * update_args)) : list (SDRTools * tool_call) :=
  (λ sa, (sa.1, UpdateLeadProfile sa.2)) <$> calls.

(** A value that is not empty: a string other than the empty one. *)
Definition non_empty (v : value) : Prop := ∃ s, v = VStr s ∧ s ≠ "".

(** The sequence of records the leads file holds: none when there is no
    file yet, the items when it holds a JSON array; a file with anything
    else is not a store of leads. *)
Definition stored_records (f : option file_content) : option (list json) :=
  match f with
  | None => Some []
  | Some (Document (JArr recs)) => Some recs
  | Some _ => None
  end.

(** What [save_to_disk] makes of the file before it appends: the records
    it goes on with, or the exception that ends the call. *)
Definition existing_leads_of (f : option file_content) : exn + list json :=
  match f with
  | None => inr []
  | Some NotJSON => inr []
  | Some Undecodable => inl UnicodeDecodeError
  | Some (Document (JArr recs)) => inr recs
  | Some (Document _) => inl (AttributeError "append")
  end.

(** The dictionary [save_to_disk] builds from the profile [d]. *)
Definition entry_of (d : dict) (now : datetime) : dict :=
  <["timestamp" := VStr (isoformat now)]> d.

(** The record [save_to_disk] appends for the profile [d]. *)
Definition lead_record (d : dict) (now : datetime) : json :=
  dict_to_json (entry_of d now).

(** ** ISO 8601 *)

(** The value of a decimal digit. *)
Definition digit_value (c : ascii) : option Z :=
  let n := Z.of_N (N_of_ascii c) in
  if decide (48 ≤ n ≤ 57)%Z then Some (n - 48)%Z else None.

(** The number that [cs], a sequence of decimal digits, writes after [acc]. *)
Fixpoint decimal (acc : Z) (cs : list ascii) : option Z :=
  match cs with
  | [] => Some acc
  | c :: cs' => d ← digit_value c; decimal (10 * acc + d) cs'
  end.

(** Reads a number of exactly [w] digits at the head of [cs]. *)
Definition number (w : nat) (cs : list ascii) : option (Z * list ascii) :=
  if decide (w ≤ length cs) then n ← decimal 0 (take w cs); Some (n, drop w cs)
  else None.

(** Reads the character [c] at the head of [cs]. *)
Definition literal (c : ascii) (cs : list ascii) : option (list ascii) :=
  match cs with
  | c' :: cs' => if decide (c' = c) then Some cs' else None
  | [] => None
  end.

#[global] Instance valid_datetime_dec t : Decision (valid_datetime t).
Proof. unfold valid_datetime. apply _. Defined.

(** The date and time a string denotes in the extended format of ISO 8601
    for a local date and time, [YYYY-MM-DDThh:mm:ss] with an optional
    fraction of six digits; [None] for any other string. *)
Definition iso8601 (s : string) : option datetime :=
  let cs := String.list_ascii_of_string s in
  '(y, cs) ← number 4 cs; cs ← literal "-" cs;
  '(mo, cs) ← number 2 cs; cs ← literal "-" cs;
  '(d, cs) ← number 2 cs; cs ← literal "T" cs;
  '(h, cs) ← number 2 cs; cs ← literal ":" cs;
  '(mi, cs) ← number 2 cs; cs ← literal ":" cs;
  '(sec, cs) ← number 2 cs;
  '(us, cs) ← match cs with
              | [] => Some (0%Z, [])
              | _ => cs ← literal "." cs; number 6 cs
              end;
  if decide (cs = [] ∧ valid_datetime (DateTime y mo d h mi sec us))
  then Some (DateTime y mo d h mi sec us)
  else None.

(** ** Submissions that overlap *)

(** [save_to_disk] up to the point where it has read the file and built the
    list to write (the lines before the second [open]), and from there on.
    Nothing in the code keeps another submission from running between the
    two. *)
Definition save_begin (self : LeadManager) (now : datetime) : M pyobj :=
  entry ← dict_copy (profile self);
  dict_setitem entry "timestamp" (VStr (isoformat now));;
  existing_leads ←
    (file_exists ← os_path_exists;
     if file_exists : bool
     then try_except json_load is_JSONDecodeError (mret (PList []))
     else mret (PList []));
  list_append existing_leads (PDict entry).

Definition save_end (existing_leads : pyobj) : M unit :=
  json_dump existing_leads;;
  logger_info LeadSaved.

(** A [submit_lead] call in progress. *)
Inductive submission :=
  | Waiting (self : SDRTools) (now : datetime)   (* called, not started *)
  | Loaded (existing_leads : pyobj)              (* has read, has not written *)
  | Finished                                     (* returned *)
  | Failed (e : exn).                            (* raised *)

Definition step_submission (t : submission) (w : world) : submission * world :=
  match t with
  | Waiting self now =>
      match save_begin lead_state now w with
      | Return o w' => (Loaded o, w')
      | Raise e w' => (Failed e, w')
      end
  | Loaded o =>
      match save_end o w with
      | Return _ w' => (Finished, w')
      | Raise e w' => (Failed e, w')
      end
  | Finished | Failed _ => (t, w)
  end.

(** Runs the submissions in the order a schedule gives: each number names the one
    that takes its next step. *)
Fixpoint run_schedule (sched : list nat) (ts : list submission) (w : world) : list submission * world :=
  match sched with
  | [] => (ts, w)
  | i :: sched' =>
      match ts !! i with
      | Some t => let '(t', w') := step_submission t w in run_schedule sched' (<[i := t']> ts) w'
      | None => run_schedule sched' ts w
      end
  end.

(** The schedule in which [n] submissions, starting with number [i], run one after
    another, each to its end before the next starts. *)
Definition serial (i n : nat) : list nat := flat_map (λ j, [j; j]) (seq i n).

(** ** More functions used to state properties *)

(** The names [update] assigns: those of the keyword arguments whose value
    is not [None]. *)
Definition assigned_names (kwargs : list (string * value)) : list string :=
  omap (λ kv, if is_not_None kv.2 then Some kv.1 else None) kwargs.

(** The arguments of the [update_lead_profile] calls of a sequence of tool
    calls, in order. *)
Definition args_of (cs : list (SDRTools * tool_call)) : list update_args :=
  omap (λ sc, match sc.2 with
              | UpdateLeadProfile a => Some a
              | SubmitLead _ => None
              end) cs.

(** The times of the [submit_lead] calls of a sequence of tool calls. *)
Definition submit_times (cs : list (SDRTools * tool_call)) : list datetime :=
  omap (λ sc, match sc.2 with
              | UpdateLeadProfile _ => None
              | SubmitLead now => Some now
              end) cs.

(** [b] where it is not [None], [a] elsewhere. *)
Definition or_else (a b : value) : value := if is_not_None b then b else a.

(** The arguments of one call that does what a call with [a] followed by a
    call with [b] does. *)
Definition merge_args (a b : update_args) : update_args :=
  {| arg_name := or_else (arg_name a) (arg_name b);
     arg_company := or_else (arg_company a) (arg_company b);
     arg_email := or_else (arg_email a) (arg_email b);
     arg_use_case := or_else (arg_use_case a) (arg_use_case b);
     arg_budget := or_else (arg_budget a) (arg_budget b);
     arg_timeline := or_else (arg_timeline a) (arg_timeline b) |}.

(** No field is given a value other than [None] by both [a] and [b]. *)
Definition disjoint_args (a b : update_args) : bool :=
  forallb (λ k, negb (is_not_None (supplied k a) && is_not_None (supplied k b)))
    profile_fields.

(** The records a sequence of tool calls appends when the profile is [d]
    at its start: one for each [submit_lead], made of the profile as the
    [update_lead_profile] calls before it have left it. *)
Fixpoint records_of (cs : list (SDRTools * tool_call)) (d : dict) : list json :=
  match cs with
  | [] => []
  | (_, UpdateLeadProfile a) :: cs' => records_of cs' (assign_kwargs (kwargs_of a) d)
  | (_, SubmitLead now) :: cs' => lead_record d now :: records_of cs' d
  end.

(** ** The knowledge base: [load_faq_context] *)

(** One entry of the knowledge base. *)
Definition qa (question answer : string) : json :=
  JObj (<["question" := JStr question]> (<["answer" := JStr answer]> ∅)).

Definition DEFAULT_FAQ : json :=
  JArr [
    qa "What does Jaysid Development do?"
       "We are a premier software house specializing in Custom AI Agents, Full-Stack Web Development, and Cloud Migration services.";
    qa "How much does a custom AI agent cost?"
       "Our pilot packages start at $2,500 for a basic RAG chatbot. Enterprise voice agents typically range from $10k to $25k depending on integration complexity.";
    qa "What tech stack do you use?"
       "We specialize in Python, TypeScript, React, Next.js, and cloud providers like AWS and Google Cloud. For AI, we use OpenAI, Anthropic, and LiveKit.";
    qa "Do you offer staff augmentation?"
       "Yes, we can provide dedicated senior developers to join your existing team on a contract basis."
  ].

(** How a call of [load_faq_context] ends, and the FAQ file it leaves.  The
    string [json.dumps(data, indent=2)] returns is the text of [data], and
    is given, as the content of a file is, by the value it is the text of. *)
Inductive faq_outcome :=
  | FaqReturn (text : json) (faq_file : option file_content)
  | FaqRaise (e : exn) (faq_file : option file_content).

Definition faq_file_after (r : faq_outcome) : option file_content :=
  match r with
  | FaqReturn _ f => f
  | FaqRaise _ f => f
  end.

(** [load_faq_context()], on the FAQ file the disk has ([None]: no such
    file). *)
Definition load_faq_context (faq_file : option file_content) : faq_outcome :=
  let faq_file :=
    if negb (bool_decide (is_Some faq_file))      (* not os.path.exists(FAQ_FILE) *)
    then Some (Document DEFAULT_FAQ)              (* json.dump(DEFAULT_FAQ, f, indent=4) *)
    else faq_file in
  match faq_file with                             (* data = json.load(f) *)
  | None => FaqRaise FileNotFoundError faq_file
  | Some Undecodable => FaqRaise UnicodeDecodeError faq_file
  | Some NotJSON => FaqRaise JSONDecodeError faq_file
  | Some (Document data) => FaqReturn data faq_file
  end.

(** * Properties *)

(** ** The effect of [update] *)

Ltac unfold_monad := unfold mbind, M_bind, mret, M_ret, raise in *.

Lemma set_heap_id w : set_heap (heap w) w = w.
Proof. by destruct w. Qed.

Lemma for_each_setitem l kwargs : ∀ w d,
  heap w !! l = Some d →
  for_each kwargs (λ kv : string * value,
    if is_not_None kv.2 then dict_setitem l kv.1 kv.2 else mret tt) w
  = Return tt (set_heap (<[l := assign_kwargs kwargs d]> (heap w)) w).
Proof.
  induction kwargs as [|[k v] kwargs IH]; intros w d Hd; simpl.
  - unfold_monad. by rewrite list_insert_id, set_heap_id.
  - unfold_monad. destruct v as [|s]; simpl.
    + by apply IH.
    + unfold dict_setitem at 1. rewrite Hd.
      erewrite IH; last first.
      { simpl. apply list_lookup_insert_eq. by eapply lookup_lt_Some. }
      simpl. by rewrite list_insert_insert_eq.
Qed.

Lemma for_each_setitem_unallocated l kwargs w :
  heap w !! l = None →
  world_of (for_each kwargs (λ kv : string * value,
    if is_not_None kv.2 then dict_setitem l kv.1 kv.2 else mret tt) w) = w.
Proof.
  intros Hl. induction kwargs as [|[k v] kwargs IH]; simpl; [done|].
  unfold_monad. destruct v as [|s]; simpl; [done|].
  unfold dict_setitem. by rewrite Hl.
Qed.

Lemma update_allocated self kwargs w d :
  heap w !! profile self = Some d →
  update self kwargs w =
    Return tt (add_log (ProfileUpdated (assign_kwargs kwargs d))
                 (set_heap (<[profile self := assign_kwargs kwargs d]> (heap w)) w)).
Proof.
  intros Hd. unfold update. unfold_monad.
  rewrite (for_each_setitem _ _ _ _ Hd). unfold dict_read. simpl.
  rewrite list_lookup_insert_eq by (by eapply lookup_lt_Some). done.
Qed.

Lemma update_unallocated self kwargs w :
  heap w !! profile self = None →
  world_of (update self kwargs w) = w.
Proof.
  intros Hl. unfold update. unfold_monad.
  pose proof (for_each_setitem_unallocated _ kwargs _ Hl) as Hw.
  destruct (for_each _ _ w) as [[] w'|e w']; simpl in *; subst; [|done].
  unfold dict_read. by rewrite Hl.
Qed.

(** What [assign_kwargs] leaves at a key: the last value of the key that is
    not [None], and the old value when there is none. *)
Lemma assign_kwargs_lookup kwargs : ∀ d k,
  assign_kwargs kwargs d !! k =
    foldl (λ o kv, if decide (kv.1 = k) then
                     (if is_not_None kv.2 then Some kv.2 else o) else o)
          (d !! k) kwargs.
Proof.
  induction kwargs as [|[k' v] kwargs IH]; intros d k; simpl; [done|].
  unfold assign_kwargs in *. simpl. rewrite IH. f_equal.
  destruct v; simpl; case_decide; subst; try done.
  - by rewrite lookup_insert_eq.
  - by rewrite lookup_insert_ne.
Qed.

Lemma assign_kwargs_cons kv kwargs d :
  assign_kwargs (kv :: kwargs) d =
  assign_kwargs kwargs (if is_not_None kv.2 then <[kv.1 := kv.2]> d else d).
Proof. done. Qed.

Lemma assign_kwargs_other kwargs : ∀ d k,
  k ∉ kwargs.*1 → assign_kwargs kwargs d !! k = d !! k.
Proof.
  induction kwargs as [|[k' v] kwargs IH]; intros d k Hk; [done|].
  rewrite fmap_cons in Hk. apply not_elem_of_cons in Hk as [Hne Hk].
  rewrite assign_kwargs_cons, IH by done. simpl in *.
  destruct v; simpl; [done|]. by apply lookup_insert_ne.
Qed.

Lemma assign_kwargs_member kwargs : ∀ d k v,
  NoDup kwargs.*1 → (k, v) ∈ kwargs →
  assign_kwargs kwargs d !! k = if is_not_None v then Some v else d !! k.
Proof.
  induction kwargs as [|[k' v'] kwargs IH]; intros d k v Hnd Hin.
  { by apply elem_of_nil in Hin. }
  rewrite fmap_cons in Hnd. apply NoDup_cons in Hnd as [Hk' Hnd].
  rewrite assign_kwargs_cons. simpl.
  apply elem_of_cons in Hin as [[= -> ->]|Hin].
  - rewrite assign_kwargs_other by done.
    destruct v'; simpl; [done|]. by rewrite lookup_insert_eq.
  - rewrite (IH _ k v) by done.
    assert (k ≠ k') as Hne.
    { intros ->. apply Hk'. apply list_elem_of_fmap. by exists (k', v). }
    destruct v; simpl; [|done].
    destruct v'; simpl; [done|]. by rewrite lookup_insert_ne.
Qed.

(** C9. [LeadManager.update] skips a keyword argument exactly when its
    value is [None]: the field of such an argument keeps its value, and every
    other supplied value, the empty string included, becomes the value of
    its field; fields that are not named keep their value. *)
Theorem update_skips_exactly_None (self : LeadManager)
    (kwargs : list (string * value)) (w : world) (d : dict) :
  NoDup kwargs.*1 →
  heap w !! profile self = Some d →
  ∃ w' d',
    update self kwargs w = Return tt w' ∧
    heap w' !! profile self = Some d' ∧
    (∀ k, (k, VNone) ∈ kwargs → d' !! k = d !! k) ∧
    (∀ k s, (k, VStr s) ∈ kwargs → d' !! k = Some (VStr s)) ∧
    (∀ k, (k, VStr "") ∈ kwargs → d' !! k = Some (VStr "")) ∧
    (∀ k, k ∉ kwargs.*1 → d' !! k = d !! k).
Proof.
  intros Hnd Hd. eexists _, (assign_kwargs kwargs d).
  split; [by apply update_allocated|]. split.
  { simpl. apply list_lookup_insert_eq. by eapply lookup_lt_Some. }
  repeat split.
  - intros k Hin. by rewrite (assign_kwargs_member _ _ _ _ Hnd Hin).
  - intros k s Hin. by rewrite (assign_kwargs_member _ _ _ _ Hnd Hin).
  - intros k Hin. by rewrite (assign_kwargs_member _ _ _ _ Hnd Hin).
  - intros k Hk. by apply assign_kwargs_other.
Qed.

Lemma update_skips_exactly_None_witness :
  ∃ w' d',
    update lead_state [("name", VStr ""); ("email", VNone)]
      (set_heap [<["name" := VStr "Ana"]> empty_profile] (initial_world None))
    = Return tt w' ∧
    heap w' !! profile lead_state = Some d' ∧
    (∀ k, (k, VNone) ∈ [("name", VStr ""); ("email", VNone)] →
       d' !! k = (<["name" := VStr "Ana"]> empty_profile) !! k) ∧
    (∀ k s, (k, VStr s) ∈ [("name", VStr ""); ("email", VNone)] →
       d' !! k = Some (VStr s)) ∧
    (∀ k, (k, VStr "") ∈ [("name", VStr ""); ("email", VNone)] →
       d' !! k = Some (VStr "")) ∧
    (∀ k, k ∉ [("name", VStr ""); ("email", VNone)].*1 →
       d' !! k = (<["name" := VStr "Ana"]> empty_profile) !! k).
Proof.
  apply (update_skips_exactly_None lead_state
           [("name", VStr ""); ("email", VNone)]
           (set_heap [<["name" := VStr "Ana"]> empty_profile] (initial_world None))
           (<["name" := VStr "Ana"]> empty_profile)).
  - compute_done.
  - reflexivity.
Defined.

(** ** Sequences of [update_lead_profile] calls *)

#[local] Arguments assign_kwargs : simpl never.
#[local] Arguments kwargs_of : simpl never.
#[local] Arguments call_tool : simpl never.

Lemma call_update_allocated self a w d :
  profile_of w = Some d →
  call_tool self (UpdateLeadProfile a) w =
    Return "Lead profile updated successfully."
      (add_log (ProfileUpdated (assign_kwargs (kwargs_of a) d))
         (set_heap (<[profile lead_state := assign_kwargs (kwargs_of a) d]> (heap w)) w)).
Proof.
  intros Hd. unfold call_tool, update_lead_profile. unfold_monad.
  fold (kwargs_of a). by rewrite (update_allocated _ _ _ _ Hd).
Qed.

Lemma call_update_unallocated self a w :
  profile_of w = None →
  world_of (call_tool self (UpdateLeadProfile a) w) = w.
Proof.
  intros Hd. unfold call_tool, update_lead_profile. unfold_monad.
  fold (kwargs_of a).
  pose proof (update_unallocated lead_state (kwargs_of a) w Hd) as Hw.
  by destruct (update _ _ w).
Qed.

Lemma assign_kwargs_supplied a d k :
  assign_kwargs (kwargs_of a) d !! k =
    if is_not_None (supplied k a) then Some (supplied k a) else d !! k.
Proof.
  rewrite assign_kwargs_lookup. unfold supplied, kwargs_of. simpl.
  rewrite !lookup_insert, lookup_empty.
  repeat case_decide; subst; try done; simpl;
    repeat match goal with |- context [is_not_None ?v] => destruct v; simpl end;
    done.
Qed.

Lemma field_after_update self a w v k :
  field k w = Some v →
  field k (world_of (call_tool self (UpdateLeadProfile a) w)) =
    Some (if is_not_None (supplied k a) then supplied k a else v).
Proof.
  unfold field. intros Hv.
  destruct (profile_of w) as [d|] eqn:Hd; [|done]. simpl in Hv.
  rewrite (call_update_allocated _ _ _ _ Hd). simpl.
  unfold profile_of. simpl.
  rewrite list_lookup_insert_eq by (by eapply lookup_lt_Some). simpl.
  rewrite assign_kwargs_supplied. by destruct (is_not_None _).
Qed.

(** C2, as the code has it.  After any sequence of [update_lead_profile]
    calls, a field holds the last value supplied for it that is not [None],
    and its earlier value when every call passed [None] or left it out. *)
Theorem field_is_last_not_None (calls : list (SDRTools * update_args))
    (w : world) (k : string) (v : value) :
  field k w = Some v →
  field k (run_calls (update_calls calls) w) = Some (last_not_None k calls.*2 v).
Proof.
  revert w v. induction calls as [|[s a] calls IH]; intros w v Hv; [done|].
  unfold run_calls, update_calls, last_not_None in *. simpl.
  apply IH. by apply (field_after_update s).
Qed.

Lemma field_is_last_not_None_witness :
  field "name"
    (run_calls
       (update_calls
          [({| conversation := 1 |}, UpdateArgs (VStr "Ana") VNone VNone VNone VNone VNone);
           ({| conversation := 1 |}, UpdateArgs VNone VNone VNone (VStr "chatbot") VNone VNone)])
       (initial_world None))
  = Some (last_not_None "name"
            [({| conversation := 1 |}, UpdateArgs (VStr "Ana") VNone VNone VNone VNone VNone);
             ({| conversation := 1 |}, UpdateArgs VNone VNone VNone (VStr "chatbot") VNone VNone)].*2
            VNone).
Proof.
  apply (field_is_last_not_None
           [({| conversation := 1 |}, UpdateArgs (VStr "Ana") VNone VNone VNone VNone VNone);
            ({| conversation := 1 |}, UpdateArgs VNone VNone VNone (VStr "chatbot") VNone VNone)]
           (initial_world None) "name" VNone).
  reflexivity.
Defined.

(** C2, as the specification words it, fails: the empty string is not
    [None], so a call that supplies it overwrites a field that held a name.
    Two calls, [name="Ana"] and then [name=""], leave [name] empty, where the
    last non-empty value supplied is ["Ana"]. *)
Lemma empty_string_overwrites_field :
  let s := {| conversation := 1 |} in
  let calls := [UpdateArgs (VStr "Ana") VNone VNone VNone VNone VNone;
                UpdateArgs (VStr "") VNone VNone VNone VNone VNone] in
  field "name" (run_calls (update_calls ((λ a, (s, a)) <$> calls)) (initial_world None))
    = Some (VStr "") ∧
  last_non_empty "name" calls VNone = VStr "Ana" ∧
  field "name" (run_calls (update_calls ((λ a, (s, a)) <$> calls)) (initial_world None))
    ≠ Some (last_non_empty "name" calls VNone).
Proof.
  cbv zeta. split; [vm_compute; reflexivity|]. split; [vm_compute; reflexivity|].
  vm_compute. discriminate.
Qed.

(** ** Idempotence of [update_lead_profile] *)

Lemma assign_kwargs_idempotent kwargs d :
  assign_kwargs kwargs (assign_kwargs kwargs d) = assign_kwargs kwargs d.
Proof.
  apply map_eq. intros k. rewrite !assign_kwargs_lookup.
  generalize (d !! k). intros o.
  set (f := λ (o : option value) (kv : string * value),
         if decide (kv.1 = k) then (if is_not_None kv.2 then Some kv.2 else o) else o).
  assert ((∀ o', foldl f o' kwargs = o') ∨ (∃ r, ∀ o', foldl f o' kwargs = r)) as Hcases.
  { clear o. induction kwargs as [|[k' v] kwargs IH] using rev_ind; [by left|].
    destruct (decide (k' = k ∧ is_not_None v = true)) as [[-> Hv]|Hno].
    - right. exists (Some v). intros o'. rewrite foldl_app. simpl. unfold f at 1. simpl.
      rewrite decide_True by done. by rewrite Hv.
    - assert (∀ o', f o' (k', v) = o') as Hskip.
      { intros o'. unfold f. simpl. case_decide; [|done].
        destruct (is_not_None v) eqn:Hv; [|done]. by destruct Hno. }
      destruct IH as [IH|[r IH]].
      + left. intros o'. by rewrite foldl_app; simpl; rewrite Hskip.
      + right. exists r. intros o'. by rewrite foldl_app; simpl; rewrite Hskip. }
  destruct Hcases as [Hid|[r Hr]].
  - by rewrite !Hid.
  - by rewrite !Hr.
Qed.

(** C7. Calling [update_lead_profile] a second time with the same
    arguments changes nothing of what the first call left: the heap, and so
    the profile, and the leads file are the same after two calls as after
    one. *)
Theorem update_lead_profile_idempotent (self : SDRTools) (a : update_args) (w : world) :
  let once := world_of (call_tool self (UpdateLeadProfile a) w) in
  let twice := world_of (call_tool self (UpdateLeadProfile a) once) in
  profile_of twice = profile_of once ∧
  heap twice = heap once ∧
  leads_file twice = leads_file once.
Proof.
  cbv zeta. destruct (profile_of w) as [d|] eqn:Hd.
  - rewrite (call_update_allocated _ _ _ _ Hd). simpl.
    assert (Hlt : profile lead_state < length (heap w)) by (by eapply lookup_lt_Some).
    erewrite call_update_allocated; last first.
    { unfold profile_of. simpl. by apply list_lookup_insert_eq. }
    simpl. unfold profile_of. simpl.
    by rewrite list_insert_insert_eq, assign_kwargs_idempotent.
  - by rewrite !(call_update_unallocated _ _ _ Hd).
Qed.

(** ** [is_complete] *)

Lemma truthy_non_empty v : truthy v = true ↔ non_empty v.
Proof.
  split.
  - destruct v as [|[|c s]]; simpl; try done. intros _. by eexists.
  - intros (s & -> & Hs). by destruct s.
Qed.

(** C6. [is_complete] answers [True] exactly when [name] and [use_case]
    both hold a non-empty string, and it leaves the world (heap, file and
    log) as it found it. *)
Theorem is_complete_iff_name_and_use_case (self : LeadManager) (w : world)
    (d : dict) (name use_case : value) :
  heap w !! profile self = Some d →
  d !! "name" = Some name →
  d !! "use_case" = Some use_case →
  ∃ b, is_complete self w = Return b w ∧
       (b = true ↔ non_empty name ∧ non_empty use_case).
Proof.
  intros Hd Hn Hu. exists (all [name; use_case]). split.
  - unfold is_complete, dict_getitem, dict_read. unfold_monad.
    by rewrite Hd, Hn, Hd, Hu.
  - unfold all. simpl. rewrite andb_true_r, andb_true_iff.
    by rewrite !truthy_non_empty.
Qed.

Lemma is_complete_iff_name_and_use_case_witness :
  ∃ b, is_complete lead_state
         (set_heap [<["use_case" := VStr "chatbot"]> (<["name" := VStr "Ana"]> empty_profile)]
            (initial_world None))
       = Return b
           (set_heap [<["use_case" := VStr "chatbot"]> (<["name" := VStr "Ana"]> empty_profile)]
              (initial_world None)) ∧
       (b = true ↔ non_empty (VStr "Ana") ∧ non_empty (VStr "chatbot")).
Proof.
  apply (is_complete_iff_name_and_use_case lead_state
           (set_heap [<["use_case" := VStr "chatbot"]> (<["name" := VStr "Ana"]> empty_profile)]
              (initial_world None))
           (<["use_case" := VStr "chatbot"]> (<["name" := VStr "Ana"]> empty_profile))
           (VStr "Ana") (VStr "chatbot")); reflexivity.
Defined.

(** ** [save_to_disk] *)

Lemma json_of_leads h recs l d :
  h !! l = Some d →
  json_of h (PList ((PJson <$> recs) ++ [PDict l])) = Some (JArr (recs ++ [dict_to_json d])).
Proof.
  intros Hl. simpl. induction recs as [|r recs IH]; simpl.
  - by rewrite Hl.
  - destruct (_ (_ ++ _)) as [js|]; [|done]. simpl in *. by simplify_eq.
Qed.

Lemma save_to_disk_allocated self now w d :
  heap w !! profile self = Some d →
  save_to_disk self now w =
    match existing_leads_of (leads_file w) with
    | inr recs =>
        Return tt {| heap := heap w ++ [entry_of d now];
                     leads_file := Some (Document (JArr (recs ++ [lead_record d now])));
                     log := log w ++ [LeadSaved] |}
    | inl e => Raise e (set_heap (heap w ++ [entry_of d now]) w)
    end.
Proof.
  intros Hd. unfold save_to_disk, dict_copy, dict_read. unfold_monad.
  rewrite Hd. unfold dict_new, dict_setitem. simpl.
  rewrite lookup_app_r, Nat.sub_diag by done. simpl.
  rewrite insert_app_r_alt, Nat.sub_diag by done. simpl.
  fold (entry_of d now).
  assert (Hentry : (heap w ++ [entry_of d now]) !! length (heap w) = Some (entry_of d now)).
  { by rewrite lookup_app_r, Nat.sub_diag. }
  unfold os_path_exists, try_except, json_load, json_dump, logger_info. simpl.
  destruct (leads_file w) as [[| |j]|] eqn:Hf; simpl; rewrite ?Hf; simpl; try done.
  - by rewrite Hentry.
  - destruct j; simpl; try done.
    pose proof (json_of_leads _ items _ _ Hentry) as Hj. simpl in Hj.
    by rewrite Hj.
  - by rewrite Hentry.
Qed.

Lemma save_to_disk_unallocated self now w :
  heap w !! profile self = None →
  save_to_disk self now w = Raise InvalidReference w.
Proof.
  intros Hd. unfold save_to_disk, dict_copy, dict_read. unfold_monad.
  by rewrite Hd.
Qed.

Lemma submit_lead_allocated self now w d :
  profile_of w = Some d →
  submit_lead self now w =
    match existing_leads_of (leads_file w) with
    | inr recs =>
        Return "Lead has been saved to the database."
          {| heap := heap w ++ [entry_of d now];
             leads_file := Some (Document (JArr (recs ++ [lead_record d now])));
             log := log w ++ [LeadSaved] |}
    | inl e => Raise e (set_heap (heap w ++ [entry_of d now]) w)
    end.
Proof.
  intros Hd. unfold submit_lead. unfold_monad.
  rewrite (save_to_disk_allocated _ _ _ _ Hd).
  by destruct (existing_leads_of _).
Qed.

Lemma stored_records_existing f recs :
  stored_records f = Some recs → existing_leads_of f = inr recs.
Proof. destruct f as [[| |[]]|]; simpl; congruence. Qed.

(** C5. On a store that holds the sequence [recs] (or on no file yet,
    where [recs] is empty), [submit_lead] returns and the store then holds
    [recs], unchanged and in order, followed by one new record. *)
Theorem submit_lead_appends_one_record (self : SDRTools) (now : datetime)
    (w : world) (d : dict) (recs : list json) :
  profile_of w = Some d →
  stored_records (leads_file w) = Some recs →
  ∃ w', submit_lead self now w = Return "Lead has been saved to the database." w' ∧
        stored_records (leads_file w') = Some (recs ++ [lead_record d now]).
Proof.
  intros Hd Hrecs. rewrite (submit_lead_allocated _ _ _ _ Hd).
  rewrite (stored_records_existing _ _ Hrecs). by eexists.
Qed.

Lemma submit_lead_appends_one_record_witness :
  ∃ w', submit_lead {| conversation := 1 |} (DateTime 2025 11 27 9 5 3 120)
          (initial_world
             (Some (Document (JArr [lead_record empty_profile (DateTime 2025 11 26 17 0 0 0)]))))
        = Return "Lead has been saved to the database." w' ∧
        stored_records (leads_file w') =
          Some ([lead_record empty_profile (DateTime 2025 11 26 17 0 0 0)] ++
                [lead_record empty_profile (DateTime 2025 11 27 9 5 3 120)]).
Proof.
  apply (submit_lead_appends_one_record {| conversation := 1 |}
           (DateTime 2025 11 27 9 5 3 120)
           (initial_world
              (Some (Document (JArr [lead_record empty_profile (DateTime 2025 11 26 17 0 0 0)]))))
           empty_profile
           [lead_record empty_profile (DateTime 2025 11 26 17 0 0 0)]);
    reflexivity.
Defined.

(** ** The timestamp is in ISO 8601 format *)

Lemma digit_value_digit n : (0 ≤ n)%Z → digit_value (digit n) = Some (n mod 10)%Z.
Proof.
  intros Hn. unfold digit_value, digit.
  assert (0 ≤ n mod 10 < 10)%Z as Hm by (apply Z.mod_pos_bound; lia).
  rewrite N_ascii_embedding by lia. cbv zeta.
  rewrite Z2N.id by lia. rewrite decide_True by lia. f_equal. lia.
Qed.

Lemma length_zero_pad w n :
  length (String.list_ascii_of_string (zero_pad w n)) = w.
Proof. induction w as [|w IH]; simpl; [done|by rewrite IH]. Qed.

Lemma decimal_zero_pad w : ∀ acc n,
  (0 ≤ n)%Z →
  decimal acc (String.list_ascii_of_string (zero_pad w n)) =
    Some (acc * 10 ^ Z.of_nat w + n mod 10 ^ Z.of_nat w)%Z.
Proof.
  induction w as [|w IH]; intros acc n Hn.
  - simpl. f_equal. rewrite Z.mod_1_r. lia.
  - cbn [zero_pad String.list_ascii_of_string decimal].
    rewrite digit_value_digit by (apply Z.div_pos; lia). cbn [mbind option_bind].
    rewrite IH by done. f_equal.
    rewrite Nat2Z.inj_succ, Z.pow_succ_r by lia.
    rewrite (Z.mul_comm 10 (10 ^ Z.of_nat w)).
    rewrite (Z.rem_mul_r n (10 ^ Z.of_nat w) 10) by lia. lia.
Qed.

Lemma number_zero_pad w n rest :
  (0 ≤ n < 10 ^ Z.of_nat w)%Z →
  number w (String.list_ascii_of_string (zero_pad w n) ++ rest) = Some (n, rest).
Proof.
  intros Hn. unfold number.
  rewrite decide_True by (rewrite length_app, length_zero_pad; lia).
  rewrite take_app_length' by (by rewrite length_zero_pad).
  rewrite drop_app_length' by (by rewrite length_zero_pad).
  rewrite decimal_zero_pad by lia. simpl.
  rewrite Z.mod_small by lia. done.
Qed.

Lemma list_ascii_of_string_app s1 s2 :
  String.list_ascii_of_string (s1 +:+ s2) =
  String.list_ascii_of_string s1 ++ String.list_ascii_of_string s2.
Proof. induction s1 as [|c s1 IH]; simpl; [done|by rewrite IH]. Qed.

(** [isoformat] writes ISO 8601: the string it makes of a [datetime]
    reads back, in that format, as the same date and time. *)
Lemma iso8601_isoformat t : valid_datetime t → iso8601 (isoformat t) = Some t.
Proof.
  intros Hv. pose proof Hv as (Hy & Hmo & Hd & Hh & Hmi & Hs & Hus).
  destruct t as [y mo d h mi s us]. simpl in *.
  unfold iso8601, isoformat. cbn [year month day hour minute second microsecond].
  rewrite !list_ascii_of_string_app.
  do 5 (rewrite number_zero_pad by (simpl; lia);
        cbn [mbind option_bind literal app String.list_ascii_of_string];
        rewrite decide_True by done; cbn [mbind option_bind]).
  rewrite number_zero_pad by (simpl; lia). cbn [mbind option_bind].
  destruct (decide (us = 0%Z)) as [->|Hne].
  - simpl. by rewrite decide_True.
  - rewrite list_ascii_of_string_app.
    cbn [mbind option_bind literal app String.list_ascii_of_string].
    rewrite decide_True by done. cbn [mbind option_bind].
    rewrite <- (app_nil_r (String.list_ascii_of_string _)).
    rewrite number_zero_pad by (simpl; lia). simpl.
    by rewrite decide_True.
Qed.

(** ** The worlds the program reaches *)

(** Loading the module, that is running [lead_state = LeadManager()] on an
    empty heap, gives [lead_state] and [initial_world]. *)
Lemma module_load f : LeadManager_init (boot f) = Return lead_state (initial_world f).
Proof. done. Qed.

Lemma wf_initial_world f : wf (initial_world f).
Proof. exists empty_profile. split; [done|]. unfold empty_profile, profile_fields. set_solver. Qed.

Lemma supplied_not_None_field k a :
  is_not_None (supplied k a) = true → k ∈ profile_fields.
Proof.
  unfold supplied, kwargs_of, profile_fields. simpl.
  rewrite !lookup_insert, lookup_empty.
  repeat case_decide; subst; simpl; try done; intros _; set_solver.
Qed.

Lemma dom_assign_kwargs a d :
  dom d = list_to_set profile_fields →
  dom (assign_kwargs (kwargs_of a) d) = list_to_set profile_fields.
Proof.
  intros Hdom. rewrite <- Hdom. apply set_eq. intros k.
  rewrite !elem_of_dom, assign_kwargs_supplied.
  destruct (is_not_None (supplied k a)) eqn:Hs; [|done].
  split; [|by eauto]. intros _. apply elem_of_dom. rewrite Hdom.
  apply elem_of_list_to_set. by eapply supplied_not_None_field.
Qed.

Lemma profile_after_update self a w :
  profile_of (world_of (call_tool self (UpdateLeadProfile a) w)) =
  assign_kwargs (kwargs_of a) <$> profile_of w.
Proof.
  destruct (profile_of w) as [d|] eqn:Hd.
  - rewrite (call_update_allocated _ _ _ _ Hd). unfold profile_of. simpl.
    apply list_lookup_insert_eq. by eapply lookup_lt_Some.
  - by rewrite (call_update_unallocated _ _ _ Hd), Hd.
Qed.

Lemma heap_after_submit self now w l d :
  heap w !! l = Some d →
  heap (world_of (submit_lead self now w)) !! l = Some d.
Proof.
  intros Hl. destruct (profile_of w) as [p|] eqn:Hp.
  - rewrite (submit_lead_allocated _ _ _ _ Hp).
    destruct (existing_leads_of _); simpl; by apply lookup_app_l_Some.
  - unfold submit_lead. unfold_monad.
    by rewrite (save_to_disk_unallocated _ _ _ Hp).
Qed.

Lemma profile_after_submit self now w :
  profile_of (world_of (submit_lead self now w)) = profile_of w.
Proof.
  destruct (profile_of w) as [p|] eqn:Hp.
  - by apply heap_after_submit.
  - unfold submit_lead. unfold_monad.
    by rewrite (save_to_disk_unallocated _ _ _ Hp).
Qed.

Lemma profile_after_call_tool self c w1 w2 :
  profile_of w1 = profile_of w2 →
  profile_of (world_of (call_tool self c w1)) =
  profile_of (world_of (call_tool self c w2)).
Proof.
  intros Heq. destruct c as [a|now].
  - by rewrite !profile_after_update, Heq.
  - unfold call_tool. by rewrite !profile_after_submit.
Qed.

Lemma profile_after_run_calls cs : ∀ w1 w2,
  profile_of w1 = profile_of w2 →
  profile_of (run_calls cs w1) = profile_of (run_calls cs w2).
Proof.
  induction cs as [|[s c] cs IH]; intros w1 w2 Heq; [done|].
  unfold run_calls in *. simpl. apply IH. by apply profile_after_call_tool.
Qed.

Lemma wf_call_tool self c w : wf w → wf (world_of (call_tool self c w)).
Proof.
  intros (d & Hd & Hdom). destruct c as [a|now].
  - exists (assign_kwargs (kwargs_of a) d).
    split; [by rewrite profile_after_update, Hd|by apply dom_assign_kwargs].
  - exists d. unfold call_tool. by rewrite profile_after_submit.
Qed.

(** Every world the tools reach from the loaded module is well formed. *)
Lemma wf_run_calls cs : ∀ w, wf w → wf (run_calls cs w).
Proof.
  induction cs as [|[s c] cs IH]; intros w Hw; [done|].
  unfold run_calls in *. simpl. apply IH. by apply wf_call_tool.
Qed.

(** ** [submit_lead] and the profile *)

(** C10. [submit_lead] leaves the profile as it was, whether it returns or
    raises: the timestamp goes into a new dictionary, the copy, which is
    added to the heap; every dictionary that existed keeps its items, and so
    any later sequence of calls leaves the profile it would have left
    without the submission. *)
Theorem submit_lead_leaves_profile (self : SDRTools) (now : datetime) (w : world) :
  profile_of (world_of (submit_lead self now w)) = profile_of w ∧
  (∀ l d, heap w !! l = Some d →
          heap (world_of (submit_lead self now w)) !! l = Some d) ∧
  (∀ d, profile_of w = Some d →
        heap (world_of (submit_lead self now w)) = heap w ++ [entry_of d now]) ∧
  (∀ cs, profile_of (run_calls cs (world_of (submit_lead self now w))) =
         profile_of (run_calls cs w)).
Proof.
  split; [apply profile_after_submit|]. split; [|split].
  - intros l d. apply heap_after_submit.
  - intros d Hd. rewrite (submit_lead_allocated _ _ _ _ Hd).
    by destruct (existing_leads_of _).
  - intros cs. apply profile_after_run_calls, profile_after_submit.
Qed.

(** ** The record that [submit_lead] appends *)

(** C8. From a well-formed world whose store holds the sequence [recs],
    [submit_lead] writes the whole sequence back with one object after it;
    the object has the six fields of the profile, with the values the
    profile has, and a [timestamp], the time of the call in ISO 8601. *)
Theorem lead_record_is_timestamped_snapshot (self : SDRTools) (now : datetime)
    (w : world) (recs : list json) :
  wf w →
  stored_records (leads_file w) = Some recs →
  valid_datetime now →
  ∃ d w' entry,
    profile_of w = Some d ∧
    submit_lead self now w = Return "Lead has been saved to the database." w' ∧
    leads_file w' = Some (Document (JArr (recs ++ [JObj entry]))) ∧
    dom entry = list_to_set (profile_fields ++ ["timestamp"]) ∧
    (∀ k, k ∈ profile_fields → entry !! k = value_to_json <$> d !! k) ∧
    (∃ ts, entry !! "timestamp" = Some (JStr ts) ∧ iso8601 ts = Some now).
Proof.
  intros (d & Hd & Hdom) Hrecs Hnow.
  exists d. eexists. exists (value_to_json <$> entry_of d now).
  split; [done|]. split.
  { rewrite (submit_lead_allocated _ _ _ _ Hd).
    by rewrite (stored_records_existing _ _ Hrecs). }
  split; [done|]. split.
  { unfold entry_of. rewrite dom_fmap_L, dom_insert_L, Hdom.
    rewrite list_to_set_app_L, (comm_L (∪)). simpl.
    by rewrite (right_id_L ∅ (∪)). }
  split.
  - intros k Hk. unfold entry_of. rewrite lookup_fmap, lookup_insert_ne; [done|].
    intros <-. revert Hk. compute_done.
  - exists (isoformat now). split; [|by apply iso8601_isoformat].
    unfold entry_of. by rewrite lookup_fmap, lookup_insert_eq.
Qed.

Lemma lead_record_is_timestamped_snapshot_witness :
  ∃ d w' entry,
    profile_of (initial_world None) = Some d ∧
    submit_lead {| conversation := 1 |} (DateTime 2025 11 27 9 5 3 120) (initial_world None)
      = Return "Lead has been saved to the database." w' ∧
    leads_file w' = Some (Document (JArr ([] ++ [JObj entry]))) ∧
    dom entry = list_to_set (profile_fields ++ ["timestamp"]) ∧
    (∀ k, k ∈ profile_fields → entry !! k = value_to_json <$> d !! k) ∧
    (∃ ts, entry !! "timestamp" = Some (JStr ts) ∧
           iso8601 ts = Some (DateTime 2025 11 27 9 5 3 120)).
Proof.
  apply (lead_record_is_timestamped_snapshot {| conversation := 1 |}
           (DateTime 2025 11 27 9 5 3 120) (initial_world None) []).
  - apply wf_initial_world.
  - reflexivity.
  - unfold valid_datetime. simpl. lia.
Defined.

(** ** Reading a store that is missing or damaged *)

(** C4, as the code has it.  When there is no leads file, or the file holds
    text that is not JSON, [submit_lead] returns without an exception and
    the store then holds the new record alone. *)
Theorem submit_lead_recovers_missing_or_invalid_json (self : SDRTools)
    (now : datetime) (w : world) (d : dict) :
  profile_of w = Some d →
  leads_file w = None ∨ leads_file w = Some NotJSON →
  ∃ w', submit_lead self now w = Return "Lead has been saved to the database." w' ∧
        leads_file w' = Some (Document (JArr [lead_record d now])).
Proof.
  intros Hd Hf. rewrite (submit_lead_allocated _ _ _ _ Hd).
  destruct Hf as [-> | ->]; simpl; by eexists.
Qed.

Lemma submit_lead_recovers_missing_or_invalid_json_witness :
  ∃ w', submit_lead {| conversation := 1 |} (DateTime 2025 11 27 9 5 3 120)
          (initial_world (Some NotJSON))
        = Return "Lead has been saved to the database." w' ∧
        leads_file w' =
          Some (Document (JArr [lead_record empty_profile (DateTime 2025 11 27 9 5 3 120)])).
Proof.
  apply (submit_lead_recovers_missing_or_invalid_json {| conversation := 1 |}
           (DateTime 2025 11 27 9 5 3 120) (initial_world (Some NotJSON)) empty_profile).
  - reflexivity.
  - right. reflexivity.
Defined.

(** C4, as the specification words it, fails.  [save_to_disk] catches
    [JSONDecodeError] and nothing else: a file whose bytes are not text
    makes [json.load] raise [UnicodeDecodeError], and a file that holds a
    JSON value other than an array (here the object [{}]) makes
    [existing_leads.append] raise [AttributeError]; both leave
    [submit_lead] as exceptions, and the file is not written. *)
Lemma submit_lead_raises_on_damaged_store :
  let s := {| conversation := 1 |} in
  let now := DateTime 2025 11 27 9 5 3 120 in
  (∃ w', submit_lead s now (initial_world (Some Undecodable)) = Raise UnicodeDecodeError w' ∧
         leads_file w' = Some Undecodable) ∧
  (∃ w', submit_lead s now (initial_world (Some (Document (JObj ∅))))
           = Raise (AttributeError "append") w' ∧
         leads_file w' = Some (Document (JObj ∅))).
Proof.
  cbv zeta. split.
  - rewrite (submit_lead_allocated _ _ _ empty_profile) by done. simpl. by eexists.
  - rewrite (submit_lead_allocated _ _ _ empty_profile) by done. simpl. by eexists.
Qed.

(** ** One profile for every conversation *)

(** C1 fails on the code.  [lead_state] is made once, when the module is
    loaded, and both tools reach it through the global name: which
    [SDRTools] object makes a call makes no difference to what the call
    does.  So the name that conversation 1 records with
    [update_lead_profile] is in the record that conversation 2 submits,
    which without that call would have carried no name. *)
Theorem lead_state_is_shared_by_conversations :
  let c1 := {| conversation := 1 |} in
  let c2 := {| conversation := 2 |} in
  let now := DateTime 2025 11 27 9 5 3 120 in
  let ana := UpdateArgs (VStr "Ana") VNone VNone VNone VNone VNone in
  (∀ s1 s2 c w, call_tool s1 c w = call_tool s2 c w) ∧
  stored_records (leads_file
    (run_calls [(c1, UpdateLeadProfile ana); (c2, SubmitLead now)] (initial_world None)))
    = Some [lead_record (<["name" := VStr "Ana"]> empty_profile) now] ∧
  stored_records (leads_file (run_calls [(c2, SubmitLead now)] (initial_world None)))
    = Some [lead_record empty_profile now].
Proof.
  cbv zeta. split; [by intros s1 s2 [a|now] w|].
  split; vm_compute; reflexivity.
Qed.

(** ** Submissions one after another, and submissions that overlap *)

Lemma save_to_disk_steps self now w :
  save_to_disk self now w = (save_begin self now ≫= save_end) w.
Proof.
  unfold save_to_disk, save_begin, save_end. unfold_monad.
  destruct (dict_copy _ w) as [entry w1|]; [|done].
  destruct (dict_setitem _ _ _ w1) as [[] w2|]; [|done].
  by destruct (match os_path_exists w2 with Return _ _ => _ | Raise _ _ => _ end).
Qed.

Lemma step_submission_twice self now w d recs :
  profile_of w = Some d →
  stored_records (leads_file w) = Some recs →
  ∃ o w1,
    step_submission (Waiting self now) w = (Loaded o, w1) ∧
    step_submission (Loaded o) w1 =
      (Finished, {| heap := heap w ++ [entry_of d now];
                    leads_file := Some (Document (JArr (recs ++ [lead_record d now])));
                    log := log w ++ [LeadSaved] |}).
Proof.
  intros Hd Hrecs.
  pose proof (save_to_disk_allocated lead_state now w d Hd) as Hsave.
  rewrite (stored_records_existing _ _ Hrecs), save_to_disk_steps in Hsave.
  unfold mbind, M_bind in Hsave. unfold step_submission.
  destruct (save_begin lead_state now w) as [o w1|]; [|done].
  exists o, w1. split; [done|]. by rewrite Hsave.
Qed.

#[local] Arguments step_submission : simpl never.

Lemma insert_middle {A} (l1 l2 : list A) (x y : A) :
  <[length l1 := y]> (l1 ++ x :: l2) = l1 ++ y :: l2.
Proof. by rewrite insert_app_r_alt, Nat.sub_diag. Qed.

Lemma run_schedule_serial nows : ∀ finished w d recs,
  profile_of w = Some d →
  stored_records (leads_file w) = Some recs →
  ∃ w',
    run_schedule (serial (length finished) (length nows))
      (finished ++ ((λ sn, Waiting sn.1 sn.2) <$> nows)) w
    = (finished ++ ((λ _, Finished) <$> nows), w') ∧
    profile_of w' = Some d ∧
    stored_records (leads_file w') = Some (recs ++ ((λ sn, lead_record d sn.2) <$> nows)).
Proof.
  induction nows as [|[s now] nows IH]; intros dn w d recs Hd Hrecs.
  { exists w. simpl. by rewrite !app_nil_r. }
  destruct (step_submission_twice s now w d recs Hd Hrecs) as (o & w1 & Hs1 & Hs2).
  set (w2 := {| heap := heap w ++ [entry_of d now];
                leads_file := Some (Document (JArr (recs ++ [lead_record d now])));
                log := log w ++ [LeadSaved] |}) in *.
  destruct (IH (dn ++ [Finished]) w2 d (recs ++ [lead_record d now]))
    as (w' & Hrun & Hp & Hst).
  { unfold profile_of, w2. simpl. by apply lookup_app_l_Some. }
  { done. }
  rewrite length_app, Nat.add_1_r, <- !app_assoc in Hrun. simpl in Hrun.
  exists w'. split; [|split; [done|by rewrite Hst, <- app_assoc]].
  unfold serial in *. cbn [length seq flat_map app fmap list_fmap run_schedule fst snd].
  rewrite list_lookup_middle by done. rewrite Hs1.
  rewrite insert_middle.
  rewrite list_lookup_middle by done. rewrite Hs2.
  by rewrite insert_middle.
Qed.

(** C3, as the code has it.  Submissions that run one after another, each
    to its end before the next starts, all return, and the store then holds
    the records it held, followed by one record for each submission, in
    order. *)
Theorem serial_submissions_keep_every_record (nows : list (SDRTools * datetime))
    (w : world) (d : dict) (recs : list json) :
  profile_of w = Some d →
  stored_records (leads_file w) = Some recs →
  ∃ w',
    run_schedule (serial 0 (length nows)) ((λ sn, Waiting sn.1 sn.2) <$> nows) w
    = ((λ _, Finished) <$> nows, w') ∧
    stored_records (leads_file w') = Some (recs ++ ((λ sn, lead_record d sn.2) <$> nows)).
Proof.
  intros Hd Hrecs.
  destruct (run_schedule_serial nows [] w d recs Hd Hrecs) as (w' & Hrun & _ & Hst).
  by exists w'.
Qed.

Lemma serial_submissions_keep_every_record_witness :
  ∃ w',
    run_schedule
      (serial 0 (length [({| conversation := 1 |}, DateTime 2025 11 27 9 5 3 120);
                         ({| conversation := 2 |}, DateTime 2025 11 27 9 5 4 0)]))
      ((λ sn, Waiting sn.1 sn.2) <$>
         [({| conversation := 1 |}, DateTime 2025 11 27 9 5 3 120);
          ({| conversation := 2 |}, DateTime 2025 11 27 9 5 4 0)])
      (initial_world None)
    = ((λ _, Finished) <$>
         [({| conversation := 1 |}, DateTime 2025 11 27 9 5 3 120);
          ({| conversation := 2 |}, DateTime 2025 11 27 9 5 4 0)], w') ∧
    stored_records (leads_file w') =
      Some ([] ++ ((λ sn, lead_record empty_profile sn.2) <$>
                     [({| conversation := 1 |}, DateTime 2025 11 27 9 5 3 120);
                      ({| conversation := 2 |}, DateTime 2025 11 27 9 5 4 0)])).
Proof.
  apply (serial_submissions_keep_every_record
           [({| conversation := 1 |}, DateTime 2025 11 27 9 5 3 120);
            ({| conversation := 2 |}, DateTime 2025 11 27 9 5 4 0)]
           (initial_world None) empty_profile []); reflexivity.
Defined.

(** C3, as the specification words it, fails: nothing serializes the
    read, append and write of [save_to_disk].  When two submissions both
    read the store before either writes it, both return, and the store
    holds one record, that of the submission that wrote last; the record of
    the other is lost. *)
Lemma overlapping_submissions_lose_a_record :
  let first := DateTime 2025 11 27 9 5 3 120 in
  let second := DateTime 2025 11 27 9 5 4 0 in
  let calls := [Waiting {| conversation := 1 |} first;
                Waiting {| conversation := 2 |} second] in
  (run_schedule [0; 1; 0; 1] calls (initial_world None)).1 = [Finished; Finished] ∧
  stored_records (leads_file (run_schedule [0; 1; 0; 1] calls (initial_world None)).2)
    = Some [lead_record empty_profile second] ∧
  lead_record empty_profile first ≠ lead_record empty_profile second.
Proof.
  cbv zeta. split; [vm_compute; reflexivity|]. split; [vm_compute; reflexivity|].
  vm_compute. discriminate.
Qed.

(** ** A conversation from the first call to the submission *)

(** On a fresh store: after [name="Ana"] the profile is not complete, after
    [use_case="chatbot"] it is, and [submit_lead] then leaves one record in
    the store, with the name, the use case and no company. *)
Example conversation_on_a_fresh_store :
  let s := {| conversation := 1 |} in
  let now := DateTime 2025 11 27 9 5 3 120 in
  let w1 := run_calls
              [(s, UpdateLeadProfile (UpdateArgs (VStr "Ana") VNone VNone VNone VNone VNone))]
              (initial_world None) in
  let w2 := run_calls
              [(s, UpdateLeadProfile (UpdateArgs VNone VNone VNone (VStr "chatbot") VNone VNone))]
              w1 in
  let w3 := run_calls [(s, SubmitLead now)] w2 in
  is_complete lead_state w1 = Return false w1 ∧
  is_complete lead_state w2 = Return true w2 ∧
  ∃ entry,
    leads_file w3 = Some (Document (JArr [JObj entry])) ∧
    entry !! "name" = Some (JStr "Ana") ∧
    entry !! "use_case" = Some (JStr "chatbot") ∧
    entry !! "company" = Some JNull ∧
    entry !! "timestamp" = Some (JStr "2025-11-27T09:05:03.000120").
Proof.
  cbv zeta. split; [vm_compute; reflexivity|]. split; [vm_compute; reflexivity|].
  eexists. split; [vm_compute; reflexivity|].
  repeat split; vm_compute; reflexivity.
Qed.

(** * Further properties of the code *)

#[local] Set Warnings "-clear-no-such-hyp".

(** ** [LeadManager.update] and the keys of the profile *)

Lemma dom_assign_kwargs_names kwargs : ∀ d,
  dom (assign_kwargs kwargs d) = dom d ∪ list_to_set (assigned_names kwargs).
Proof.
  induction kwargs as [|[k v] kwargs IH]; intros d.
  - unfold assign_kwargs, assigned_names. simpl. by rewrite (right_id_L ∅ (∪)).
  - rewrite assign_kwargs_cons, IH. unfold assigned_names. simpl.
    destruct v as [|s]; simpl; [done|].
    by rewrite dom_insert_L, (comm_L (∪) {[k]}), <- (assoc_L (∪)).
Qed.

(** X1. [update] never removes a key of the profile, and it adds every
    name it is given with a value other than [None], whether or not the name
    is one of the six fields: the keys afterwards are the keys before
    together with the names assigned. *)
Theorem update_keys_grow (self : LeadManager) (kwargs : list (string * value))
    (w : world) (d : dict) :
  heap w !! profile self = Some d →
  ∃ w' d',
    update self kwargs w = Return tt w' ∧
    heap w' !! profile self = Some d' ∧
    dom d' = dom d ∪ list_to_set (assigned_names kwargs).
Proof.
  intros Hd. eexists _, (assign_kwargs kwargs d).
  split; [by apply update_allocated|]. split.
  - simpl. apply list_lookup_insert_eq. by eapply lookup_lt_Some.
  - apply dom_assign_kwargs_names.
Qed.

Lemma update_keys_grow_witness :
  ∃ w' d',
    update lead_state [("phone", VStr "555-0100"); ("email", VNone)] (initial_world None)
      = Return tt w' ∧
    heap w' !! profile lead_state = Some d' ∧
    dom d' = dom empty_profile ∪
             list_to_set (assigned_names [("phone", VStr "555-0100"); ("email", VNone)]).
Proof.
  apply (update_keys_grow lead_state [("phone", VStr "555-0100"); ("email", VNone)]
           (initial_world None) empty_profile).
  reflexivity.
Defined.

(** X2. Whatever tool calls are made after the module is loaded, in
    whatever order and through whatever [SDRTools] objects, the profile of
    [lead_state] stays allocated and its keys stay the six fields: the tools
    add no key and remove none. *)
Theorem tool_calls_keep_the_six_fields (cs : list (SDRTools * tool_call))
    (f : option file_content) :
  ∃ d, profile_of (run_calls cs (initial_world f)) = Some d ∧
       dom d = list_to_set profile_fields.
Proof. apply wf_run_calls, wf_initial_world. Qed.

(** X3. A call of [update_lead_profile] writes nothing but the profile
    dictionary and the log: the leads file is as it was, no dictionary is
    allocated, and every other dictionary of the heap keeps its items. *)
Theorem update_lead_profile_frame (self : SDRTools) (a : update_args) (w : world) :
  let w' := world_of (call_tool self (UpdateLeadProfile a) w) in
  leads_file w' = leads_file w ∧
  length (heap w') = length (heap w) ∧
  (∀ l, l ≠ profile lead_state → heap w' !! l = heap w !! l).
Proof.
  cbv zeta. destruct (profile_of w) as [d|] eqn:Hd.
  - rewrite (call_update_allocated _ _ _ _ Hd). simpl.
    split; [done|]. split; [by rewrite length_insert|].
    intros l Hl. by rewrite list_lookup_insert_ne.
  - by rewrite (call_update_unallocated _ _ _ Hd).
Qed.

(** ** Instances of [LeadManager] *)

Lemma is_complete_allocated self w d name use_case :
  heap w !! profile self = Some d →
  d !! "name" = Some name →
  d !! "use_case" = Some use_case →
  is_complete self w = Return (all [name; use_case]) w.
Proof.
  intros Hd Hn Hu. unfold is_complete, dict_getitem, dict_read. unfold_monad.
  by rewrite Hd, Hn, Hd, Hu.
Qed.

(** X4. [LeadManager()] makes a dictionary of its own: the new profile is
    at a location that held nothing, it has the six fields, all [None], the
    dictionaries that existed are untouched, and the new manager is not
    complete. *)
Theorem LeadManager_init_fresh (w : world) :
  ∃ m w',
    LeadManager_init w = Return m w' ∧
    heap w !! profile m = None ∧
    heap w' !! profile m = Some empty_profile ∧
    (∀ k, k ∈ profile_fields → empty_profile !! k = Some VNone) ∧
    (∀ l d, heap w !! l = Some d → heap w' !! l = Some d) ∧
    is_complete m w' = Return false w'.
Proof.
  exists {| profile := length (heap w) |}, (set_heap (heap w ++ [empty_profile]) w).
  assert (Hnew : (heap w ++ [empty_profile]) !! length (heap w) = Some empty_profile).
  { by rewrite lookup_app_r, Nat.sub_diag. }
  split; [reflexivity|]. split; [by apply lookup_ge_None|]. split; [done|]. split.
  { intros k Hk. revert k Hk. apply Forall_forall. unfold profile_fields.
    repeat constructor. }
  split; [intros l d Hl; simpl; by apply lookup_app_l_Some|].
  by apply (is_complete_allocated _ _ empty_profile VNone VNone).
Qed.

(** X5. [update] on one manager leaves the profile of every other manager
    as it was: only the dictionary of [self] is written. *)
Theorem update_leaves_other_managers (self other : LeadManager)
    (kwargs : list (string * value)) (w : world) :
  profile other ≠ profile self →
  heap (world_of (update self kwargs w)) !! profile other = heap w !! profile other.
Proof.
  intros Hne. destruct (heap w !! profile self) as [d|] eqn:Hd.
  - rewrite (update_allocated _ _ _ _ Hd). simpl. by rewrite list_lookup_insert_ne.
  - by rewrite (update_unallocated _ _ _ Hd).
Qed.

Lemma update_leaves_other_managers_witness :
  heap (world_of (update {| profile := 1 |} [("name", VStr "Ana")]
                    (set_heap [empty_profile; empty_profile] (initial_world None))))
    !! profile lead_state
  = heap (set_heap [empty_profile; empty_profile] (initial_world None)) !! profile lead_state.
Proof.
  apply (update_leaves_other_managers {| profile := 1 |} lead_state [("name", VStr "Ana")]
           (set_heap [empty_profile; empty_profile] (initial_world None))).
  simpl. lia.
Defined.

(** ** How [update_lead_profile] calls compose *)

Lemma supplied_merge_args k a b :
  supplied k (merge_args a b) = or_else (supplied k a) (supplied k b).
Proof.
  unfold supplied, kwargs_of, merge_args. simpl.
  rewrite !lookup_insert, lookup_empty.
  by repeat case_decide.
Qed.

Lemma assign_kwargs_merge a b d :
  assign_kwargs (kwargs_of b) (assign_kwargs (kwargs_of a) d) =
  assign_kwargs (kwargs_of (merge_args a b)) d.
Proof.
  apply map_eq. intros k. rewrite !assign_kwargs_supplied, supplied_merge_args.
  unfold or_else. destruct (supplied k b), (supplied k a); done.
Qed.

Lemma heap_after_update self a w :
  heap (world_of (call_tool self (UpdateLeadProfile a) w)) =
  match profile_of w with
  | Some d => <[profile lead_state := assign_kwargs (kwargs_of a) d]> (heap w)
  | None => heap w
  end.
Proof.
  destruct (profile_of w) as [d|] eqn:Hd.
  - by rewrite (call_update_allocated _ _ _ _ Hd).
  - by rewrite (call_update_unallocated _ _ _ Hd).
Qed.

(** X6. Two [update_lead_profile] calls in a row leave the heap, and so
    the profile, that one call leaves whose arguments are those of the second
    call where they are not [None] and those of the first elsewhere. *)
Theorem two_updates_are_one_merged_update (s1 s2 s : SDRTools) (a b : update_args)
    (w : world) :
  heap (run_calls [(s1, UpdateLeadProfile a); (s2, UpdateLeadProfile b)] w) =
  heap (run_calls [(s, UpdateLeadProfile (merge_args a b))] w).
Proof.
  unfold run_calls. simpl. rewrite !heap_after_update, profile_after_update.
  destruct (profile_of w) as [d|] eqn:Hd; simpl; [|done].
  by rewrite list_insert_insert_eq, assign_kwargs_merge.
Qed.

Lemma disjoint_args_supplied a b k :
  disjoint_args a b = true →
  is_not_None (supplied k a) = true → is_not_None (supplied k b) = false.
Proof.
  intros Hdis Ha. pose proof (supplied_not_None_field _ _ Ha) as Hk.
  unfold disjoint_args in Hdis. rewrite forallb_forall in Hdis.
  apply list_elem_of_In in Hk. specialize (Hdis k Hk).
  rewrite Ha in Hdis. simpl in Hdis. by apply negb_true_iff in Hdis.
Qed.

(** X7. [update_lead_profile] calls that give values to different fields
    commute: in either order they leave the same heap. *)
Theorem updates_of_different_fields_commute (s1 s2 : SDRTools) (a b : update_args)
    (w : world) :
  disjoint_args a b = true →
  heap (run_calls [(s1, UpdateLeadProfile a); (s2, UpdateLeadProfile b)] w) =
  heap (run_calls [(s2, UpdateLeadProfile b); (s1, UpdateLeadProfile a)] w).
Proof.
  intros Hdis. unfold run_calls. simpl.
  rewrite !heap_after_update, !profile_after_update.
  destruct (profile_of w) as [d|] eqn:Hd; simpl; [|done].
  rewrite !list_insert_insert_eq. f_equal.
  apply map_eq. intros k. rewrite !assign_kwargs_supplied.
  destruct (is_not_None (supplied k a)) eqn:Ha; [|done].
  by rewrite (disjoint_args_supplied _ _ _ Hdis Ha).
Qed.

Lemma updates_of_different_fields_commute_witness :
  heap (run_calls
          [({| conversation := 1 |},
            UpdateLeadProfile (UpdateArgs (VStr "Ana") VNone VNone VNone VNone VNone));
           ({| conversation := 1 |},
            UpdateLeadProfile (UpdateArgs VNone VNone VNone (VStr "chatbot") VNone VNone))]
          (initial_world None)) =
  heap (run_calls
          [({| conversation := 1 |},
            UpdateLeadProfile (UpdateArgs VNone VNone VNone (VStr "chatbot") VNone VNone));
           ({| conversation := 1 |},
            UpdateLeadProfile (UpdateArgs (VStr "Ana") VNone VNone VNone VNone VNone))]
          (initial_world None)).
Proof.
  apply (updates_of_different_fields_commute {| conversation := 1 |} {| conversation := 1 |}
           (UpdateArgs (VStr "Ana") VNone VNone VNone VNone VNone)
           (UpdateArgs VNone VNone VNone (VStr "chatbot") VNone VNone)
           (initial_world None)).
  vm_compute. reflexivity.
Defined.

(** ** [is_complete] after a conversation *)

Lemma field_after_run_calls cs : ∀ w k v,
  field k w = Some v →
  field k (run_calls cs w) = Some (last_not_None k (args_of cs) v).
Proof.
  induction cs as [|[s [a|now]] cs IH]; intros w k v Hv; [done|..].
  - unfold run_calls, args_of, last_not_None in *. simpl.
    apply IH. by apply field_after_update.
  - unfold run_calls, args_of in *. simpl. apply IH.
    unfold field, call_tool. by rewrite profile_after_submit.
Qed.

Lemma field_Some k w v :
  field k w = Some v → ∃ d, profile_of w = Some d ∧ d !! k = Some v.
Proof.
  unfold field. destruct (profile_of w) as [d|]; [|done]. simpl. by exists d.
Qed.

Lemma is_complete_run_calls cs w name use_case :
  field "name" w = Some name →
  field "use_case" w = Some use_case →
  is_complete lead_state (run_calls cs w) =
    Return (truthy (last_not_None "name" (args_of cs) name) &&
            truthy (last_not_None "use_case" (args_of cs) use_case))
           (run_calls cs w).
Proof.
  intros Hn Hu.
  apply (field_after_run_calls cs) in Hn. apply (field_after_run_calls cs) in Hu.
  apply field_Some in Hn as (d & Hd & Hn). apply field_Some in Hu as (d' & Hd' & Hu).
  assert (d' = d) as -> by congruence.
  rewrite (is_complete_allocated _ _ _ _ _ Hd Hn Hu).
  unfold all. simpl. by rewrite andb_true_r.
Qed.

Lemma supplied_name a : supplied "name" a = arg_name a.
Proof. unfold supplied, kwargs_of. simpl. by rewrite lookup_insert_eq. Qed.

(** X8. After any sequence of tool calls, [is_complete] returns, changes
    nothing, and answers by the last values that are not [None] among those
    the [update_lead_profile] calls supplied for [name] and for [use_case]
    (the values before the calls, when there is none): [True] exactly when
    both are non-empty strings; [submit_lead] calls make no difference. *)
Theorem is_complete_after_calls (cs : list (SDRTools * tool_call)) (w : world)
    (name use_case : value) :
  field "name" w = Some name →
  field "use_case" w = Some use_case →
  is_complete lead_state (run_calls cs w) =
    Return (truthy (last_not_None "name" (args_of cs) name) &&
            truthy (last_not_None "use_case" (args_of cs) use_case))
           (run_calls cs w).
Proof. apply is_complete_run_calls. Qed.

Lemma is_complete_after_calls_witness :
  is_complete lead_state
    (run_calls
       [({| conversation := 1 |},
         UpdateLeadProfile (UpdateArgs (VStr "Ana") VNone VNone VNone VNone VNone));
        ({| conversation := 1 |}, SubmitLead (DateTime 2025 11 27 9 5 3 120));
        ({| conversation := 1 |},
         UpdateLeadProfile (UpdateArgs VNone VNone VNone (VStr "chatbot") VNone VNone))]
       (initial_world None)) =
  Return
    (truthy (last_not_None "name"
               (args_of
                  [({| conversation := 1 |},
                    UpdateLeadProfile (UpdateArgs (VStr "Ana") VNone VNone VNone VNone VNone));
                   ({| conversation := 1 |}, SubmitLead (DateTime 2025 11 27 9 5 3 120));
                   ({| conversation := 1 |},
                    UpdateLeadProfile
                      (UpdateArgs VNone VNone VNone (VStr "chatbot") VNone VNone))])
               VNone) &&
     truthy (last_not_None "use_case"
               (args_of
                  [({| conversation := 1 |},
                    UpdateLeadProfile (UpdateArgs (VStr "Ana") VNone VNone VNone VNone VNone));
                   ({| conversation := 1 |}, SubmitLead (DateTime 2025 11 27 9 5 3 120));
                   ({| conversation := 1 |},
                    UpdateLeadProfile
                      (UpdateArgs VNone VNone VNone (VStr "chatbot") VNone VNone))])
               VNone))
    (run_calls
       [({| conversation := 1 |},
         UpdateLeadProfile (UpdateArgs (VStr "Ana") VNone VNone VNone VNone VNone));
        ({| conversation := 1 |}, SubmitLead (DateTime 2025 11 27 9 5 3 120));
        ({| conversation := 1 |},
         UpdateLeadProfile (UpdateArgs VNone VNone VNone (VStr "chatbot") VNone VNone))]
       (initial_world None)).
Proof.
  apply (is_complete_after_calls
           [({| conversation := 1 |},
             UpdateLeadProfile (UpdateArgs (VStr "Ana") VNone VNone VNone VNone VNone));
            ({| conversation := 1 |}, SubmitLead (DateTime 2025 11 27 9 5 3 120));
            ({| conversation := 1 |},
             UpdateLeadProfile (UpdateArgs VNone VNone VNone (VStr "chatbot") VNone VNone))]
           (initial_world None) VNone VNone); reflexivity.
Defined.

(** X9. Completeness can be lost: a call of [update_lead_profile] that
    supplies the empty string for [name] leaves a profile that is not
    complete, whatever the profile held before. *)
Theorem empty_name_makes_profile_incomplete (self : SDRTools) (a : update_args)
    (w : world) (name use_case : value) :
  field "name" w = Some name →
  field "use_case" w = Some use_case →
  arg_name a = VStr "" →
  is_complete lead_state (world_of (call_tool self (UpdateLeadProfile a) w)) =
    Return false (world_of (call_tool self (UpdateLeadProfile a) w)).
Proof.
  intros Hn Hu Ha.
  pose proof (is_complete_run_calls [(self, UpdateLeadProfile a)] w _ _ Hn Hu) as Hc.
  unfold run_calls, args_of, last_not_None in Hc. simpl in Hc.
  rewrite supplied_name, Ha in Hc. by rewrite Hc.
Qed.

Lemma empty_name_makes_profile_incomplete_witness :
  is_complete lead_state
    (world_of (call_tool {| conversation := 1 |}
                 (UpdateLeadProfile (UpdateArgs (VStr "") VNone VNone VNone VNone VNone))
                 (set_heap
                    [<["use_case" := VStr "chatbot"]> (<["name" := VStr "Ana"]> empty_profile)]
                    (initial_world None)))) =
  Return false
    (world_of (call_tool {| conversation := 1 |}
                 (UpdateLeadProfile (UpdateArgs (VStr "") VNone VNone VNone VNone VNone))
                 (set_heap
                    [<["use_case" := VStr "chatbot"]> (<["name" := VStr "Ana"]> empty_profile)]
                    (initial_world None)))).
Proof.
  apply (empty_name_makes_profile_incomplete {| conversation := 1 |}
           (UpdateArgs (VStr "") VNone VNone VNone VNone VNone)
           (set_heap
              [<["use_case" := VStr "chatbot"]> (<["name" := VStr "Ana"]> empty_profile)]
              (initial_world None))
           (VStr "Ana") (VStr "chatbot")); reflexivity.
Defined.

(** ** What [submit_lead] writes, and when *)

(** X10. [submit_lead] writes the file and logs only when it returns: a
    call that returns gives the acknowledgement, leaves a JSON array in the
    file and adds one log record; a call that raises leaves the file and the
    log as they were. *)
Theorem submit_lead_writes_only_on_return (self : SDRTools) (now : datetime) (w : world) :
  match submit_lead self now w with
  | Return ack w' =>
      ack = "Lead has been saved to the database." ∧
      (∃ recs, leads_file w' = Some (Document (JArr recs))) ∧
      log w' = log w ++ [LeadSaved]
  | Raise e w' => leads_file w' = leads_file w ∧ log w' = log w
  end.
Proof.
  destruct (profile_of w) as [d|] eqn:Hd.
  - rewrite (submit_lead_allocated _ _ _ _ Hd).
    destruct (existing_leads_of _); simpl; [done|]. split; [done|]. split; [|done].
    by eexists.
  - unfold submit_lead. unfold_monad.
    by rewrite (save_to_disk_unallocated _ _ _ Hd).
Qed.




(** ** The store over a whole conversation *)

Lemma length_records_of cs : ∀ d, length (records_of cs d) = length (submit_times cs).
Proof.
  induction cs as [|[s [a|now]] cs IH]; intros d; simpl; [done|apply IH|].
  unfold submit_times in *. simpl. by rewrite IH.
Qed.

Lemma run_calls_records cs : ∀ w d recs,
  profile_of w = Some d →
  stored_records (leads_file w) = Some recs →
  stored_records (leads_file (run_calls cs w)) = Some (recs ++ records_of cs d).
Proof.
  induction cs as [|[s [a|now]] cs IH]; intros w d recs Hd Hrecs.
  - simpl. by rewrite app_nil_r.
  - unfold run_calls in *. simpl. apply IH.
    + rewrite profile_after_update, Hd. done.
    + by rewrite (call_update_allocated _ _ _ _ Hd).
  - unfold run_calls in *. simpl.
    rewrite (IH _ d (recs ++ [lead_record d now])).
    + by rewrite <- app_assoc.
    + unfold call_tool. by rewrite profile_after_submit.
    + unfold call_tool. rewrite (submit_lead_allocated _ _ _ _ Hd).
      by rewrite (stored_records_existing _ _ Hrecs).
Qed.

(** X12. Over any sequence of tool calls the store only grows at its end:
    it holds afterwards the records it held, in order, followed by one
    record for each [submit_lead] call, and each of these is made of the
    profile as the calls before that submission left it; calls made after
    a submission do not change the record it wrote. *)
Theorem store_after_calls (cs : list (SDRTools * tool_call)) (w : world)
    (d : dict) (recs : list json) :
  profile_of w = Some d →
  stored_records (leads_file w) = Some recs →
  stored_records (leads_file (run_calls cs w)) = Some (recs ++ records_of cs d) ∧
  length (records_of cs d) = length (submit_times cs).
Proof.
  intros Hd Hrecs. split; [by apply run_calls_records|apply length_records_of].
Qed.

Lemma store_after_calls_witness :
  stored_records (leads_file
    (run_calls
       [({| conversation := 1 |},
         UpdateLeadProfile (UpdateArgs (VStr "Ana") VNone VNone VNone VNone VNone));
        ({| conversation := 1 |}, SubmitLead (DateTime 2025 11 27 9 5 3 120));
        ({| conversation := 1 |},
         UpdateLeadProfile (UpdateArgs (VStr "Bo") VNone VNone VNone VNone VNone))]
       (initial_world None)))
  = Some ([] ++ records_of
       [({| conversation := 1 |},
         UpdateLeadProfile (UpdateArgs (VStr "Ana") VNone VNone VNone VNone VNone));
        ({| conversation := 1 |}, SubmitLead (DateTime 2025 11 27 9 5 3 120));
        ({| conversation := 1 |},
         UpdateLeadProfile (UpdateArgs (VStr "Bo") VNone VNone VNone VNone VNone))]
       empty_profile) ∧
  length (records_of
       [({| conversation := 1 |},
         UpdateLeadProfile (UpdateArgs (VStr "Ana") VNone VNone VNone VNone VNone));
        ({| conversation := 1 |}, SubmitLead (DateTime 2025 11 27 9 5 3 120));
        ({| conversation := 1 |},
         UpdateLeadProfile (UpdateArgs (VStr "Bo") VNone VNone VNone VNone VNone))]
       empty_profile)
  = length (submit_times
       [({| conversation := 1 |},
         UpdateLeadProfile (UpdateArgs (VStr "Ana") VNone VNone VNone VNone VNone));
        ({| conversation := 1 |}, SubmitLead (DateTime 2025 11 27 9 5 3 120));
        ({| conversation := 1 |},
         UpdateLeadProfile (UpdateArgs (VStr "Bo") VNone VNone VNone VNone VNone))]).
Proof.
  apply (store_after_calls
           [({| conversation := 1 |},
             UpdateLeadProfile (UpdateArgs (VStr "Ana") VNone VNone VNone VNone VNone));
            ({| conversation := 1 |}, SubmitLead (DateTime 2025 11 27 9 5 3 120));
            ({| conversation := 1 |},
             UpdateLeadProfile (UpdateArgs (VStr "Bo") VNone VNone VNone VNone VNone))]
           (initial_world None) empty_profile []); reflexivity.
Defined.

(** X13. Records made at different times differ: for one profile, the
    records of two submissions are equal only if their times are. *)
Theorem lead_record_tells_times_apart (d : dict) (t1 t2 : datetime) :
  valid_datetime t1 → valid_datetime t2 →
  t1 ≠ t2 →
  lead_record d t1 ≠ lead_record d t2.
Proof.
  intros Hv1 Hv2 Hne Heq. apply Hne.
  unfold lead_record, dict_to_json in Heq. injection Heq as Heq.
  assert (Hts : (value_to_json <$> entry_of d t1) !! "timestamp" =
                (value_to_json <$> entry_of d t2) !! "timestamp") by (by rewrite Heq).
  unfold entry_of in Hts. rewrite !lookup_fmap, !lookup_insert_eq in Hts.
  assert (isoformat t1 = isoformat t2) as Hsame.
  { cbv [fmap option_fmap option_map value_to_json] in Hts. congruence. }
  pose proof (iso8601_isoformat t1 Hv1) as Hiso. rewrite Hsame in Hiso.
  rewrite (iso8601_isoformat t2 Hv2) in Hiso. by injection Hiso.
Qed.

Lemma lead_record_tells_times_apart_witness :
  lead_record empty_profile (DateTime 2025 11 27 9 5 3 120) ≠
  lead_record empty_profile (DateTime 2025 11 27 9 5 4 0).
Proof.
  apply (lead_record_tells_times_apart empty_profile
           (DateTime 2025 11 27 9 5 3 120) (DateTime 2025 11 27 9 5 4 0)).
  - unfold valid_datetime. simpl. lia.
  - unfold valid_datetime. simpl. lia.
  - discriminate.
Defined.

(** ** [load_faq_context] *)

(** X14. [load_faq_context] writes the FAQ file only when there is none:
    a file that exists is left as it is, whether the call returns or raises,
    and on a missing file the call returns the default knowledge base and
    leaves it in the file.  A call that returns leaves in the file the
    document whose text it returned. *)
Theorem load_faq_context_writes_only_missing_file (f : option file_content) :
  (∀ c, f = Some c → faq_file_after (load_faq_context f) = Some c) ∧
  (f = None →
   load_faq_context f = FaqReturn DEFAULT_FAQ (Some (Document DEFAULT_FAQ))) ∧
  (∀ text f', load_faq_context f = FaqReturn text f' → f' = Some (Document text)).
Proof.
  split; [|split].
  - intros c ->. by destruct c.
  - by intros ->.
  - intros text f'. destruct f as [[| |j]|]; simpl; intros [= <- <-]; done.
Qed.

(** X15. Calling [load_faq_context] again gives what the first call gave:
    on the file the first call left, the second call ends the same way, with
    the same text or the same exception, and leaves the same file. *)
Theorem load_faq_context_again (f : option file_content) :
  load_faq_context (faq_file_after (load_faq_context f)) = load_faq_context f.
Proof. by destruct f as [[| |j]|]. Qed.


(** ** What the tools never do *)

Lemma last_not_None_keeps_string k calls : ∀ v,
  is_not_None v = true → is_not_None (last_not_None k calls v) = true.
Proof.
  induction calls as [|a calls IH]; intros v Hv; [done|].
  unfold last_not_None in *. simpl. apply IH.
  by destruct (is_not_None (supplied k a)) eqn:Ha.
Qed.

(** X17. No tool call clears a field: a field that holds a string holds a
    string after any sequence of tool calls, so the profile of [lead_state]
    never goes back to the state in which the module made it. *)
Theorem tool_calls_never_clear_a_field (cs : list (SDRTools * tool_call)) (w : world)
    (k s : string) :
  field k w = Some (VStr s) →
  ∃ s', field k (run_calls cs w) = Some (VStr s').
Proof.
  intros Hk. rewrite (field_after_run_calls cs _ _ _ Hk).
  pose proof (last_not_None_keeps_string k (args_of cs) (VStr s) eq_refl) as Hs.
  destruct (last_not_None k (args_of cs) (VStr s)) as [|s']; [done|]. by exists s'.
Qed.

Lemma tool_calls_never_clear_a_field_witness :
  ∃ s', field "name"
          (run_calls
             [({| conversation := 2 |}, SubmitLead (DateTime 2025 11 27 9 5 3 120));
              ({| conversation := 2 |},
               UpdateLeadProfile (UpdateArgs VNone VNone VNone (VStr "chatbot") VNone VNone))]
             (set_heap [<["name" := VStr "Ana"]> empty_profile] (initial_world None)))
        = Some (VStr s').
Proof.
  apply (tool_calls_never_clear_a_field
           [({| conversation := 2 |}, SubmitLead (DateTime 2025 11 27 9 5 3 120));
            ({| conversation := 2 |},
             UpdateLeadProfile (UpdateArgs VNone VNone VNone (VStr "chatbot") VNone VNone))]
           (set_heap [<["name" := VStr "Ana"]> empty_profile] (initial_world None))
           "name" "Ana").
  reflexivity.
Defined.
